(** * Tournament registration bot: record store and command handlers

    A shallow embedding of [discord_bot.py]: the persisted tournament record
    ([load_data], [save_data] over the [json] module), and the command
    handlers [setslots], [register], [confirm], [slots], [teams], [reset]
    that mutate the module-level [data] dictionary and write it back to
    [tourney_data.json].

    Python values are modelled as follows.
    - [int] is [Z] (arbitrary precision).
    - [str] is [string]; one [ascii] stands for one code point below 256.
    - a [list] is a [list]; a [dict] with string keys is an association list
      in insertion order (Python dictionaries keep insertion order).
    - the file [tourney_data.json] is [option string]: [None] when the path
      does not exist, otherwise its text. *)

From Stdlib Require Import ZArith NArith List String Ascii Bool Lia.
From Stdlib Require Decimal DecimalString DecimalFacts DecimalPos DecimalZ.
Import ListNotations.

#[local] Set Warnings "-register-all".

Local Open Scope string_scope.
Local Open Scope list_scope.
Local Open Scope Z_scope.

(** ** Characters used by the JSON text format *)

Definition dquote : ascii := "034"%char.
Definition backslash : ascii := "\"%char.
Definition newline : ascii := "010"%char.

Definition str1 (c : ascii) : string := String c EmptyString.

(** ** Python values handled by the [json] module *)

Inductive json : Type :=
| JNull
| JBool (b : bool)
| JInt (n : Z)
| JStr (s : string)
| JList (items : list json)
| JDict (members : list (string * json)).

(** What a call raises instead of returning.  [NotModelled] marks an input
    that leaves the modelled fragment (a float literal, a code point of 256 or
    more); no statement is made about what Python does there.  [OutOfFuel]
    is the end of the recursion bound of the decoder; [json_loads] gives it
    enough fuel on every text, so it never comes out of it. *)
Inductive exn : Type :=
| JSONDecodeError
| NotModelled
| OutOfFuel.

Inductive result (A : Type) : Type :=
| Ok (a : A)
| Raise (e : exn).
Arguments Ok {A} a.
Arguments Raise {A} e.

Definition bind {A B} (r : result A) (k : A -> result B) : result B :=
  match r with
  | Ok a => k a
  | Raise e => Raise e
  end.

Notation "x <- r ;; k" := (bind r (fun x => k))
  (at level 61, r at next level, right associativity).
Notation "' p <- r ;; k" := (bind r (fun x => let p := x in k))
  (at level 61, p pattern, r at next level, right associativity).

(** ** [json.dump(data, f, indent=4)] *)

(** [int.__repr__]: decimal digits, a leading minus sign for negatives. *)
Definition int_repr (n : Z) : string :=
  DecimalString.NilZero.string_of_int (Z.to_int n).

Definition hex_digit (n : N) : ascii :=
  match n with
  | 0%N => "0" | 1%N => "1" | 2%N => "2" | 3%N => "3"
  | 4%N => "4" | 5%N => "5" | 6%N => "6" | 7%N => "7"
  | 8%N => "8" | 9%N => "9" | 10%N => "a" | 11%N => "b"
  | 12%N => "c" | 13%N => "d" | 14%N => "e" | _ => "f"
  end%char.

(** ['{0:04x}'.format(n)] for a code point below 65536. *)
Definition hex4 (n : N) : string :=
  String (hex_digit (n / 4096 mod 16))
    (String (hex_digit (n / 256 mod 16))
       (String (hex_digit (n / 16 mod 16))
          (String (hex_digit (n mod 16)) EmptyString))).

(** The replacement of one character in [encode_basestring_ascii]:
    [ESCAPE_DCT] for the quote, the backslash and the five short escapes,
    the character itself from space to tilde, and [\uXXXX] otherwise. *)
Definition escape_char (c : ascii) : string :=
  let n := N_of_ascii c in
  if (n =? 34)%N then String backslash (str1 dquote)
  else if (n =? 92)%N then String backslash (str1 backslash)
  else if (n =? 8)%N then String backslash "b"
  else if (n =? 12)%N then String backslash "f"
  else if (n =? 10)%N then String backslash "n"
  else if (n =? 13)%N then String backslash "r"
  else if (n =? 9)%N then String backslash "t"
  else if ((32 <=? n) && (n <=? 126))%N then str1 c
  else String backslash (String "u" (hex4 n)).

Fixpoint escape (s : string) : string :=
  match s with
  | EmptyString => EmptyString
  | String c r => escape_char c ++ escape r
  end.

Definition encode_basestring_ascii (s : string) : string :=
  String dquote (escape s ++ str1 dquote).

(** ['\n' + indent * level] with [indent = ' ' * 4]. *)
Fixpoint spaces (n : nat) : string :=
  match n with
  | O => EmptyString
  | S k => String " " (spaces k)
  end%char.

Definition newline_indent (level : nat) : string :=
  String newline (spaces (4 * level)).

(** [_iterencode] with its two loops [_iterencode_list] and
    [_iterencode_dict]; the item separator is [','] followed by the
    indentation and the key separator is [': ']. *)
Fixpoint iterencode (o : json) (level : nat) {struct o} : string :=
  match o with
  | JNull => "null"
  | JBool true => "true"
  | JBool false => "false"
  | JInt n => int_repr n
  | JStr s => encode_basestring_ascii s
  | JList [] => "[]"
  | JList (x :: xs) =>
      "[" ++ newline_indent (S level) ++ iterencode x (S level)
        ++ (fix rest (l : list json) : string :=
              match l with
              | [] => EmptyString
              | y :: l' =>
                  "," ++ newline_indent (S level) ++ iterencode y (S level)
                    ++ rest l'
              end) xs
        ++ newline_indent level ++ "]"
  | JDict [] => "{}"
  | JDict ((k, v) :: kvs) =>
      "{" ++ newline_indent (S level) ++ encode_basestring_ascii k ++ ": "
        ++ iterencode v (S level)
        ++ (fix rest (l : list (string * json)) : string :=
              match l with
              | [] => EmptyString
              | (k', v') :: l' =>
                  "," ++ newline_indent (S level)
                    ++ encode_basestring_ascii k' ++ ": "
                    ++ iterencode v' (S level) ++ rest l'
              end) kvs
        ++ newline_indent level ++ "}"
  end%string.

Definition json_dumps (o : json) : string := iterencode o 0.

(** ** [json.load(f)] *)

Definition is_ws (c : ascii) : bool :=
  let n := N_of_ascii c in
  ((n =? 32) || (n =? 9) || (n =? 10) || (n =? 13))%N.

(** [WHITESPACE.match(s, idx).end()] *)
Fixpoint skip_ws (s : string) : string :=
  match s with
  | String c r => if is_ws c then skip_ws r else s
  | EmptyString => s
  end.

Definition digit_of (c : ascii) : option (Decimal.uint -> Decimal.uint) :=
  match c with
  | "0" => Some Decimal.D0 | "1" => Some Decimal.D1 | "2" => Some Decimal.D2
  | "3" => Some Decimal.D3 | "4" => Some Decimal.D4 | "5" => Some Decimal.D5
  | "6" => Some Decimal.D6 | "7" => Some Decimal.D7 | "8" => Some Decimal.D8
  | "9" => Some Decimal.D9 | _ => None
  end%char.

Definition is_digit (c : ascii) : bool :=
  match digit_of c with Some _ => true | None => false end.

(** The longest run of decimal digits. *)
Fixpoint scan_digits (s : string) : Decimal.uint * string :=
  match s with
  | String c r =>
      match digit_of c with
      | Some d => let (u, r') := scan_digits r in (d u, r')
      | None => (Decimal.Nil, s)
      end
  | EmptyString => (Decimal.Nil, s)
  end.

(** The integer part of [NUMBER_RE]: a single zero, or a digit from one to
    nine followed by the longest run of digits. *)
Definition match_integer (s : string) : option (Decimal.uint * string) :=
  match s with
  | String c r =>
      if Ascii.eqb c "0" then Some (Decimal.D0 Decimal.Nil, r)
      else match digit_of c with
           | Some d => let (u, r') := scan_digits r in Some (d u, r')
           | None => None
           end
  | EmptyString => None
  end.

(** Whether the fraction or the exponent group of [NUMBER_RE] matches: a dot
    and a digit, or an [e] or [E], an optional sign and a digit. *)
Definition float_tail (s : string) : bool :=
  match s with
  | String c (String d r) =>
      if Ascii.eqb c "." then is_digit d
      else if Ascii.eqb c "e" || Ascii.eqb c "E" then
        is_digit d
        || ((Ascii.eqb d "+" || Ascii.eqb d "-")
            && match r with String e _ => is_digit e | EmptyString => false end)
      else false
  | _ => false
  end.

Fixpoint strip_prefix (p s : string) : option string :=
  match p, s with
  | EmptyString, _ => Some s
  | String a p', String b s' =>
      if Ascii.eqb a b then strip_prefix p' s' else None
  | String _ _, EmptyString => None
  end.

Definition starts_with (p s : string) : bool :=
  match strip_prefix p s with Some _ => true | None => false end.

(** The number branch of [_scan_once]: an integer literal goes through
    [int]; a literal with a fraction or an exponent is a float. *)
Definition scan_number (s : string) : result (json * string) :=
  let (neg, s1) :=
    match s with
    | String c r => if Ascii.eqb c "-" then (true, r) else (false, s)
    | EmptyString => (false, s)
    end in
  match match_integer s1 with
  | Some (u, r) =>
      if float_tail r then Raise NotModelled
      else
        let d := if neg then Decimal.Neg u else Decimal.Pos u in
        Ok (JInt (Z.of_int d), r)
  | None =>
      if starts_with "NaN" s || starts_with "Infinity" s
         || starts_with "-Infinity" s
      then Raise NotModelled
      else Raise JSONDecodeError
  end.

(** The value of a hexadecimal digit, in either case. *)
Definition hex_value (c : ascii) : option N :=
  let n := N_of_ascii c in
  if ((48 <=? n) && (n <=? 57))%N then Some (n - 48)%N
  else if ((97 <=? n) && (n <=? 102))%N then Some (n - 87)%N
  else if ((65 <=? n) && (n <=? 70))%N then Some (n - 55)%N
  else None.

Definition hex4_value (h1 h2 h3 h4 : ascii) : option N :=
  match hex_value h1, hex_value h2, hex_value h3, hex_value h4 with
  | Some a, Some b, Some c, Some d => Some (((a * 16 + b) * 16 + c) * 16 + d)%N
  | _, _, _, _ => None
  end.

(** The [BACKSLASH] table of the decoder. *)
Definition unescape (c : ascii) : option ascii :=
  let n := N_of_ascii c in
  if (n =? 34)%N then Some dquote
  else if (n =? 92)%N then Some backslash
  else if (n =? 47)%N then Some "/"%char
  else if (n =? 98)%N then Some "008"%char
  else if (n =? 102)%N then Some "012"%char
  else if (n =? 110)%N then Some newline
  else if (n =? 114)%N then Some "013"%char
  else if (n =? 116)%N then Some "009"%char
  else None.

(** [scanstring(s, end, strict=True)], entered just after the opening quote:
    the decoded string and the text after the closing quote. *)
Fixpoint scanstring (s : string) : result (string * string) :=
  match s with
  | EmptyString => Raise JSONDecodeError
  | String c r =>
      if Ascii.eqb c dquote then Ok (EmptyString, r)
      else if Ascii.eqb c backslash then
        match r with
        | EmptyString => Raise JSONDecodeError
        | String e r1 =>
            if Ascii.eqb e "u" then
              match r1 with
              | String h1 (String h2 (String h3 (String h4 r2))) =>
                  match hex4_value h1 h2 h3 h4 with
                  | Some n =>
                      if (n <? 256)%N then
                        ' (t, r3) <- scanstring r2 ;;
                        Ok (String (ascii_of_N n) t, r3)
                      else Raise NotModelled
                  | None => Raise JSONDecodeError
                  end
              | _ => Raise JSONDecodeError
              end
            else
              match unescape e with
              | Some ch =>
                  ' (t, r3) <- scanstring r1 ;; Ok (String ch t, r3)
              | None => Raise JSONDecodeError
              end
        end
      else if (N_of_ascii c <? 32)%N then Raise JSONDecodeError
      else ' (t, r1) <- scanstring r ;; Ok (String c t, r1)
  end.

(** [d[k] = v] on a dictionary: the value is replaced where the key is
    present, and the pair is added at the end otherwise. *)
Fixpoint dict_set (d : list (string * json)) (k : string) (v : json)
  : list (string * json) :=
  match d with
  | [] => [(k, v)]
  | (k', v') :: d' =>
      if String.eqb k' k then (k', v) :: d' else (k', v') :: dict_set d' k v
  end.

(** [dict(pairs)] *)
Definition dict_of_pairs (pairs : list (string * json))
  : list (string * json) :=
  fold_left (fun d kv => dict_set d (fst kv) (snd kv)) pairs [].

(** [_scan_once], [JSONArray] and [JSONObject].  Each takes the text from
    the index it is called at and returns the value and the text from the
    index it ends at.  [array_items] is the loop of [JSONArray], entered at a
    value; [object_members] is the loop of [JSONObject], entered just after
    the quote that opens a key. *)
Fixpoint scan_once (fuel : nat) (s : string) {struct fuel}
  : result (json * string) :=
  match fuel with
  | O => Raise OutOfFuel
  | S f =>
      match s with
      | EmptyString => Raise JSONDecodeError
      | String c r =>
          if Ascii.eqb c dquote then
            ' (t, r1) <- scanstring r ;; Ok (JStr t, r1)
          else if Ascii.eqb c "{" then
            match skip_ws r with
            | String c1 r1 =>
                if Ascii.eqb c1 "}" then Ok (JDict [], r1)
                else if Ascii.eqb c1 dquote then
                  ' (pairs, r2) <- object_members f r1 ;;
                  Ok (JDict (dict_of_pairs pairs), r2)
                else Raise JSONDecodeError
            | EmptyString => Raise JSONDecodeError
            end
          else if Ascii.eqb c "[" then
            match skip_ws r with
            | String c1 r1 =>
                if Ascii.eqb c1 "]" then Ok (JList [], r1)
                else
                  ' (values, r2) <- array_items f (String c1 r1) ;;
                  Ok (JList values, r2)
            | EmptyString => Raise JSONDecodeError
            end
          else match strip_prefix "null" s with
          | Some r1 => Ok (JNull, r1)
          | None =>
          match strip_prefix "true" s with
          | Some r1 => Ok (JBool true, r1)
          | None =>
          match strip_prefix "false" s with
          | Some r1 => Ok (JBool false, r1)
          | None => scan_number s
          end end end
      end
  end

with array_items (fuel : nat) (s : string) {struct fuel}
  : result (list json * string) :=
  match fuel with
  | O => Raise OutOfFuel
  | S f =>
      ' (value, r) <- scan_once f s ;;
      match skip_ws r with
      | String c r1 =>
          if Ascii.eqb c "]" then Ok ([value], r1)
          else if Ascii.eqb c "," then
            ' (values, r2) <- array_items f (skip_ws r1) ;;
            Ok (value :: values, r2)
          else Raise JSONDecodeError
      | EmptyString => Raise JSONDecodeError
      end
  end

with object_members (fuel : nat) (s : string) {struct fuel}
  : result (list (string * json) * string) :=
  match fuel with
  | O => Raise OutOfFuel
  | S f =>
      ' (key, r) <- scanstring s ;;
      match skip_ws r with
      | String c r1 =>
          if Ascii.eqb c ":" then
            ' (value, r2) <- scan_once f (skip_ws r1) ;;
            match skip_ws r2 with
            | String c2 r3 =>
                if Ascii.eqb c2 "}" then Ok ([(key, value)], r3)
                else if Ascii.eqb c2 "," then
                  match skip_ws r3 with
                  | String c3 r4 =>
                      if Ascii.eqb c3 dquote then
                        ' (pairs, r5) <- object_members f r4 ;;
                        Ok ((key, value) :: pairs, r5)
                      else Raise JSONDecodeError
                  | EmptyString => Raise JSONDecodeError
                  end
                else Raise JSONDecodeError
            | EmptyString => Raise JSONDecodeError
            end
          else Raise JSONDecodeError
      | EmptyString => Raise JSONDecodeError
      end
  end.

(** [JSONDecoder.decode]: leading white space is skipped, one value is
    scanned, and anything but white space after it is an error.  The fuel
    bounds the number of nested calls by twice the length of the text. *)
Definition json_loads (s : string) : result json :=
  ' (obj, r) <- scan_once (2 * String.length s + 2) (skip_ws s) ;;
  match skip_ws r with
  | EmptyString => Ok obj
  | String _ _ => Raise JSONDecodeError
  end.

(** ** The tournament record *)

(** One entry of [data["teams"]]. *)
Record team : Type := {
  team_name : string;
  players : list string;
  captain_id : Z
}.

(** The dictionary [data]. *)
Record tourney_data : Type := {
  slots : Z;
  teams : list team;
  confirmed : list string
}.

Definition team_to_json (t : team) : json :=
  JDict [("team_name", JStr (team_name t));
         ("players", JList (map JStr (players t)));
         ("captain_id", JInt (captain_id t))].

(** The Python value that a record stands for. *)
Definition to_json (d : tourney_data) : json :=
  JDict [("slots", JInt (slots d));
         ("teams", JList (map team_to_json (teams d)));
         ("confirmed", JList (map JStr (confirmed d)))].

(** [d[k]] on a dictionary, [None] for a missing key. *)
Fixpoint dict_get (d : list (string * json)) (k : string) : option json :=
  match d with
  | [] => None
  | (k', v) :: d' => if String.eqb k' k then Some v else dict_get d' k
  end.

Definition as_int (o : json) : option Z :=
  match o with JInt n => Some n | _ => None end.

Definition as_str (o : json) : option string :=
  match o with JStr s => Some s | _ => None end.

Fixpoint all_some {A} (l : list (option A)) : option (list A) :=
  match l with
  | [] => Some []
  | Some a :: l' =>
      match all_some l' with Some r => Some (a :: r) | None => None end
  | None :: _ => None
  end.

Definition as_list {A} (f : json -> option A) (o : json) : option (list A) :=
  match o with JList l => all_some (map f l) | _ => None end.

Definition team_of_json (o : json) : option team :=
  match o with
  | JDict d =>
      match dict_get d "team_name", dict_get d "players",
            dict_get d "captain_id" with
      | Some n, Some p, Some c =>
          match as_str n, as_list as_str p, as_int c with
          | Some n', Some p', Some c' =>
              Some {| team_name := n'; players := p'; captain_id := c' |}
          | _, _, _ => None
          end
      | _, _, _ => None
      end
  | _ => None
  end.

(** The record that a loaded value stands for, when it has the three keys
    with values of the persisted layout. *)
Definition of_json (o : json) : option tourney_data :=
  match o with
  | JDict d =>
      match dict_get d "slots", dict_get d "teams", dict_get d "confirmed" with
      | Some s, Some t, Some c =>
          match as_int s, as_list team_of_json t, as_list as_str c with
          | Some s', Some t', Some c' =>
              Some {| slots := s'; teams := t'; confirmed := c' |}
          | _, _, _ => None
          end
      | _, _, _ => None
      end
  | _ => None
  end.

(** ** The record store *)

(** The literal [{"slots": 0, "teams": [], "confirmed": []}]. *)
Definition default_data : tourney_data :=
  {| slots := 0; teams := []; confirmed := [] |}.

(** [load_data()] on the file [DATA_FILE]: [os.path.exists] decides between
    decoding the text and the default literal; nothing catches what
    [json.load] raises. *)
Definition load_data (file : option string) : result json :=
  match file with
  | Some text => json_loads text
  | None => Ok (JDict [("slots", JInt 0); ("teams", JList []);
                       ("confirmed", JList [])])
  end.

(** [save_data(data)]: the file is opened for writing, which creates or
    truncates it, and receives the encoded record. *)
Definition save_data (d : tourney_data) (file : option string)
  : option string :=
  Some (json_dumps (to_json d)).

(** ** The command handlers *)

(** The process state: the module-level [data] and the file on disk. *)
Record state : Type := {
  data : tourney_data;
  file : option string
}.

(** What a handler reads of [ctx]: [ctx.author.id] and whether the author
    has the administrator permission. *)
Record context : Type := {
  author_id : Z;
  administrator : bool
}.

(** The message a handler sends with [ctx.send]. *)
Inductive reply : Type :=
| SlotsSet (number : Z)
| SlotsFull
| DuplicateTeamName
| Registered (name : string) (members : list string)
| AlreadyConfirmed
| Confirmed (name : string)
| NoTeamForCaller
| SlotsStatus (filled total : Z)
| NoTeams
| TeamList (ts : list team)
| ResetDone
| Unauthorized.

Definition team_line (t : team) : string :=
  "- " ++ team_name t ++ ": " ++ String.concat ", " (players t)
    ++ str1 newline.

(** The text of each message, as the handlers format it. *)
Definition message (r : reply) : string :=
  match r with
  | SlotsSet n => "Tournament slots set to " ++ int_repr n ++ "."
  | SlotsFull => "All slots are full."
  | DuplicateTeamName => "This team name is already registered."
  | Registered name members =>
      "Team '" ++ name ++ "' registered with players: "
        ++ String.concat ", " members
  | AlreadyConfirmed => "Your team is already confirmed."
  | Confirmed name => "Team '" ++ name ++ "' confirmed."
  | NoTeamForCaller => "You don't have a registered team."
  | SlotsStatus filled total =>
      int_repr filled ++ "/" ++ int_repr total ++ " slots filled."
  | NoTeams => "No teams registered yet."
  | TeamList ts =>
      "Registered Teams:" ++ str1 newline
        ++ fold_right (fun t acc => team_line t ++ acc) EmptyString ts
  | ResetDone => "Tournament data has been reset."
  | Unauthorized => "You don't have permission to use this command."
  end%string.

(** [str.lower()] on code points below 256: the letters [A] to [Z] and the
    capital letters from 192 to 222, the multiplication sign 215 excepted,
    move up by 32. *)
Definition lower_char (c : ascii) : ascii :=
  let n := N_of_ascii c in
  if ((65 <=? n) && (n <=? 90)
      || (192 <=? n) && (n <=? 222) && negb (n =? 215))%N
  then ascii_of_N (n + 32)
  else c.

Fixpoint lower (s : string) : string :=
  match s with
  | EmptyString => EmptyString
  | String c r => String (lower_char c) (lower r)
  end.

(** [commands.has_permissions(administrator=True)]: the body runs for an
    administrator only; otherwise [on_command_error] answers and the state
    is the one before. *)
Definition has_permissions (ctx : context) (body : state -> reply * state)
  (st : state) : reply * state :=
  if administrator ctx then body st else (Unauthorized, st).

(** The state after an assignment to [data] followed by [save_data(data)]. *)
Definition saved (d : tourney_data) (st : state) : state :=
  {| data := d; file := save_data d (file st) |}.

Definition setslots (ctx : context) (number : Z) : state -> reply * state :=
  has_permissions ctx (fun st =>
    let d := {| slots := number; teams := teams (data st);
                confirmed := confirmed (data st) |} in
    (SlotsSet number, saved d st)).

(** The loop of [register] over [data["teams"]]: whether some team has the
    same name once both are in lower case. *)
Fixpoint name_registered (name : string) (ts : list team) : bool :=
  match ts with
  | [] => false
  | t :: rest =>
      if String.eqb (lower name) (lower (team_name t)) then true
      else name_registered name rest
  end.

Definition register (ctx : context) (name : string) (members : list string)
  (st : state) : reply * state :=
  let d := data st in
  if Z.of_nat (List.length (teams d)) >=? slots d then (SlotsFull, st)
  else if name_registered name (teams d) then (DuplicateTeamName, st)
  else
    let t := {| team_name := name; players := members;
                captain_id := author_id ctx |} in
    let d' := {| slots := slots d; teams := teams d ++ [t];
                 confirmed := confirmed d |} in
    (Registered name members, saved d' st).

(** [name in data["confirmed"]] *)
Fixpoint contains (name : string) (l : list string) : bool :=
  match l with
  | [] => false
  | x :: rest => if String.eqb x name then true else contains name rest
  end.

(** The loop of [confirm] over [data["teams"]]: the first team whose captain
    is the author ends it, in both branches. *)
Fixpoint confirm_loop (ctx : context) (ts : list team) (st : state)
  : reply * state :=
  match ts with
  | [] => (NoTeamForCaller, st)
  | t :: rest =>
      if captain_id t =? author_id ctx then
        if contains (team_name t) (confirmed (data st))
        then (AlreadyConfirmed, st)
        else
          let d := data st in
          let d' := {| slots := slots d; teams := teams d;
                       confirmed := confirmed d ++ [team_name t] |} in
          (Confirmed (team_name t), saved d' st)
      else confirm_loop ctx rest st
  end.

Definition confirm (ctx : context) (st : state) : reply * state :=
  confirm_loop ctx (teams (data st)) st.

(** The command [slots]. *)
Definition slots_status (ctx : context) (st : state) : reply * state :=
  let filled := Z.of_nat (List.length (teams (data st))) in
  let total := slots (data st) in
  (SlotsStatus filled total, st).

(** The command [teams]. *)
Definition list_teams (ctx : context) : state -> reply * state :=
  has_permissions ctx (fun st =>
    match teams (data st) with
    | [] => (NoTeams, st)
    | ts => (TeamList ts, st)
    end).

Definition reset (ctx : context) : state -> reply * state :=
  has_permissions ctx (fun st => (ResetDone, saved default_data st)).

(** ** Sequences of commands *)

Inductive command : Type :=
| CmdSetSlots (number : Z)
| CmdRegister (name : string) (members : list string)
| CmdConfirm
| CmdSlots
| CmdTeams
| CmdReset.

(** One command invoked by one user. *)
Definition step (ctx : context) (c : command) (st : state) : reply * state :=
  match c with
  | CmdSetSlots n => setslots ctx n st
  | CmdRegister name members => register ctx name members st
  | CmdConfirm => confirm ctx st
  | CmdSlots => slots_status ctx st
  | CmdTeams => list_teams ctx st
  | CmdReset => reset ctx st
  end.

(** The state after a sequence of invocations, in order. *)
Fixpoint run (l : list (context * command)) (st : state) : state :=
  match l with
  | [] => st
  | (ctx, c) :: rest => run rest (snd (step ctx c st))
  end.

(** The state at process start when no file exists. *)
Definition initial : state := {| data := default_data; file := None |}.

(** The calls of a sequence of [register] invocations: who calls, the team
    name and the players. *)
Definition registrations (calls : list (context * string * list string))
  : list (context * command) :=
  map (fun c => (fst (fst c), CmdRegister (snd (fst c)) (snd c))) calls.

(** The team names of a sequence of calls, in lower case. *)
Definition lower_names (calls : list (context * string * list string))
  : list string :=
  map (fun c => lower (snd (fst c))) calls.

(** The earliest-registered team whose captain is [caller]. *)
Definition first_team (caller : Z) (ts : list team) : option team :=
  find (fun t => captain_id t =? caller) ts.

(** Whether no invocation of a sequence is a [reset] by an administrator. *)
Definition no_reset (l : list (context * command)) : bool :=
  forallb (fun p => match snd p with
                    | CmdReset => negb (administrator (fst p))
                    | _ => true
                    end) l.

(** Every entry of [data["confirmed"]] is the name of a registered team. *)
Definition confirmed_are_teams (d : tourney_data) : Prop :=
  forall name, In name (confirmed d) ->
    exists t, In t (teams d) /\ team_name t = name.

(** A state is full when [register] would answer that all slots are full. *)
Definition full (st : state) : Prop :=
  Z.of_nat (List.length (teams (data st))) >= slots (data st).

(** ** Notions used to state the properties of the encoder and decoder *)








(** ** Process start and notions used to state further properties *)


(** The replies after which a handler has returned without assigning to
    [data] or calling [save_data]. *)
Definition unchanged_reply (r : reply) : bool :=
  match r with
  | SlotsSet _ | Registered _ _ | Confirmed _ | ResetDone => false
  | _ => true
  end.

(** No two teams have the same name once in lower case. *)
Definition names_distinct (d : tourney_data) : Prop :=
  NoDup (map (fun t => lower (team_name t)) (teams d)).

(** The number of teams is at most [slots]. *)
Definition within_capacity (d : tourney_data) : Prop :=
  Z.of_nat (List.length (teams d)) <= slots d.

(** Whether no invocation of a sequence comes from an administrator. *)
Definition no_admin (l : list (context * command)) : bool :=
  forallb (fun p => negb (administrator (fst p))) l.

(** Whether no invocation of a sequence is a [setslots] by an
    administrator. *)
Definition no_setslots (l : list (context * command)) : bool :=
  forallb (fun p => match snd p with
                    | CmdSetSlots _ => negb (administrator (fst p))
                    | _ => true
                    end) l.


(** ** The heartbeat task *)

(** What [heartbeat] reads of a channel and of a guild. *)
Record channel : Type := {
  channel_id : Z;
  channel_name : string
}.

Record guild : Type := {
  guild_name : string;
  channels : list channel
}.

(** [discord.utils.get(guild.channels, name=name)]: the first channel with
    that name, [None] when there is none. *)
Definition utils_get (cs : list channel) (name : string) : option channel :=
  find (fun c => String.eqb (channel_name c) name) cs.

(** One run of [heartbeat] over [bot.guilds].  [delivers c] tells whether
    [c.send] returns; when it raises, the [except] around the whole loop
    ends the run.  The result is the channels that received the message, in
    order, and whether the loop reached its end. *)
Fixpoint heartbeat (delivers : channel -> bool) (guilds : list guild)
  : list channel * bool :=
  match guilds with
  | [] => ([], true)
  | g :: rest =>
      match utils_get (channels g) "botlogs" with
      | Some c =>
          if delivers c then
            let (sent, finished) := heartbeat delivers rest in
            (c :: sent, finished)
          else ([], false)
      | None => heartbeat delivers rest
      end
  end.

(** The channel of each guild that a heartbeat is meant for. *)
Definition botlogs_channels (guilds : list guild) : list channel :=
  flat_map (fun g => match utils_get (channels g) "botlogs" with
                     | Some c => [c]
                     | None => []
                     end) guilds.

(** ** Concrete users and states *)

Definition admin : context := {| author_id := 1; administrator := true |}.
Definition user (id : Z) : context :=
  {| author_id := id; administrator := false |}.

(** A record with [n] slots and no team, as [setslots] leaves it on a fresh
    start. *)
Definition opened (n : Z) : state := snd (setslots admin n initial).

(** Two teams of one captain and one of another. *)
Definition three_teams : state :=
  run [(user 11, CmdRegister "Alpha" ["p1"]);
       (user 12, CmdRegister "Beta" []);
       (user 11, CmdRegister "Gamma" ["p2"])] (opened 3).

(** Two guilds with a channel named [botlogs], the second one after a
    channel of another name, and one guild without. *)
Definition some_guilds : list guild :=
  [{| guild_name := "north";
      channels := [{| channel_id := 1; channel_name := "botlogs" |};
                   {| channel_id := 2; channel_name := "botlogs" |}] |};
   {| guild_name := "east";
      channels := [{| channel_id := 3; channel_name := "general" |}] |};
   {| guild_name := "south";
      channels := [{| channel_id := 4; channel_name := "general" |};
                   {| channel_id := 5; channel_name := "botlogs" |}] |}].

(** * Properties of the command handlers *)

Lemma contains_In name l : contains name l = true <-> In name l.
Proof.
  induction l as [|x l IH]; simpl.
  - split; [discriminate | tauto].
  - destruct (String.eqb_spec x name) as [->|Hne].
    + split; auto.
    + rewrite IH. split; [auto | intros [H|H]; [contradiction | exact H]].
Qed.

Lemma contains_app name l1 l2 :
  contains name (l1 ++ l2) = contains name l1 || contains name l2.
Proof.
  induction l1 as [|x l1 IH]; simpl; [reflexivity|].
  destruct (String.eqb x name); simpl; auto.
Qed.

Lemma name_registered_In name ts :
  name_registered name ts = true <->
  In (lower name) (map (fun t => lower (team_name t)) ts).
Proof.
  induction ts as [|t ts IH]; simpl.
  - split; [discriminate | tauto].
  - destruct (String.eqb_spec (lower name) (lower (team_name t))) as [E|Hne].
    + split; auto.
    + rewrite IH. split; [auto | intros [H|H]; [congruence | exact H]].
Qed.

(** The three outcomes of [register], with the guard each one comes from. *)
Lemma register_cases ctx name members st :
  (Z.of_nat (List.length (teams (data st))) >= slots (data st)
   /\ register ctx name members st = (SlotsFull, st))
  \/ (Z.of_nat (List.length (teams (data st))) < slots (data st)
      /\ name_registered name (teams (data st)) = true
      /\ register ctx name members st = (DuplicateTeamName, st))
  \/ (Z.of_nat (List.length (teams (data st))) < slots (data st)
      /\ name_registered name (teams (data st)) = false
      /\ register ctx name members st =
         (Registered name members,
          saved {| slots := slots (data st);
                   teams := teams (data st)
                            ++ [{| team_name := name; players := members;
                                   captain_id := author_id ctx |}];
                   confirmed := confirmed (data st) |} st)).
Proof.
  unfold register.
  destruct (Z.geb_spec (Z.of_nat (List.length (teams (data st))))
              (slots (data st))) as [Hge|Hlt].
  - left. split; [lia | reflexivity].
  - right. destruct (name_registered name (teams (data st))).
    + left. auto.
    + right. auto.
Qed.

Lemma register_keeps ctx name members st :
  let st' := snd (register ctx name members st) in
  slots (data st') = slots (data st)
  /\ (exists ext, teams (data st') = teams (data st) ++ ext)
  /\ (full st' \/ In (lower name)
                    (map (fun t => lower (team_name t)) (teams (data st')))).
Proof.
  destruct (register_cases ctx name members st)
    as [[Hf E]|[[Hlt [Hn E]]|[Hlt [Hn E]]]]; rewrite E; simpl.
  - split; [reflexivity|]. split; [exists []; now rewrite app_nil_r|].
    left. exact Hf.
  - split; [reflexivity|]. split; [exists []; now rewrite app_nil_r|].
    right. now apply name_registered_In.
  - split; [reflexivity|]. split; [eexists; reflexivity|].
    right. rewrite map_app, in_app_iff. right. simpl. auto.
Qed.

Lemma run_registrations_keeps calls : forall st,
  let st' := run (registrations calls) st in
  slots (data st') = slots (data st)
  /\ (exists ext, teams (data st') = teams (data st) ++ ext)
  /\ (full st' \/ incl (lower_names calls)
                    (map (fun t => lower (team_name t)) (teams (data st')))).
Proof.
  induction calls as [|[[ctx name] members] calls IH]; intros st; simpl.
  - split; [reflexivity|]. split; [exists []; now rewrite app_nil_r|].
    right. intros x [].
  - destruct (register_keeps ctx name members st) as [Hs [[e1 He1] H1]].
    destruct (IH (snd (register ctx name members st))) as [Hs' [[e2 He2] H2]].
    simpl in *. split; [congruence|].
    split; [exists (e1 ++ e2); rewrite He2, He1, app_assoc; reflexivity|].
    destruct H2 as [H2|H2]; [left; exact H2|].
    destruct H1 as [H1|H1].
    + left. unfold full in *. rewrite Hs', He2, length_app. lia.
    + right. intros x [<-|Hx]; [|now apply H2].
      rewrite He2, map_app, in_app_iff. left. exact H1.
Qed.

(** C1: with [slots] equal to [k], after [k] calls of [register] whose names
    are distinct once in lower case, one more call answers that all slots
    are full and appends nothing; and whenever [register] succeeds, the
    number of teams is at most [slots] afterwards. *)
Theorem register_respects_capacity :
  forall (k : nat) (st : state) calls ctx name members,
    slots (data st) = Z.of_nat k ->
    List.length calls = k ->
    NoDup (lower_names calls) ->
    (let st' := run (registrations calls) st in
     register ctx name members st' = (SlotsFull, st'))
    /\ (forall st0 ctx0 name0 members0 st1,
          register ctx0 name0 members0 st0
          = (Registered name0 members0, st1) ->
          Z.of_nat (List.length (teams (data st1))) <= slots (data st1)).
Proof.
  intros k st calls ctx name members Hk Hlen Hnd. split.
  - destruct (run_registrations_keeps calls st) as [Hs [_ H]].
    simpl in *.
    assert (Hfull : full (run (registrations calls) st)).
    { destruct H as [H|H]; [exact H|].
      apply NoDup_incl_length in H; [|exact Hnd].
      unfold lower_names in H. rewrite !length_map in H.
      unfold full. rewrite Hs, Hk. lia. }
    destruct (register_cases ctx name members (run (registrations calls) st))
      as [[_ E]|[[Hlt _]|[Hlt _]]]; [exact E| |]; unfold full in Hfull; lia.
  - intros st0 ctx0 name0 members0 st1 E.
    destruct (register_cases ctx0 name0 members0 st0)
      as [[_ E']|[[_ [_ E']]|[Hlt [_ E']]]]; rewrite E' in E.
    + discriminate.
    + discriminate.
    + injection E as <-. simpl. rewrite length_app. simpl. lia.
Qed.

(** C2, as amended: after a successful [register], a second call whose name
    is the same once in lower case fails and leaves the state as it is: with
    the duplicate-name answer when a slot is still free, and with the
    slots-full answer when the first call took the last slot. *)
Theorem register_same_name_again :
  forall ctx1 name1 members1 st st1 ctx2 name2 members2,
    register ctx1 name1 members1 st = (Registered name1 members1, st1) ->
    lower name2 = lower name1 ->
    (Z.of_nat (List.length (teams (data st1))) < slots (data st1) ->
     register ctx2 name2 members2 st1 = (DuplicateTeamName, st1))
    /\ (Z.of_nat (List.length (teams (data st1))) >= slots (data st1) ->
        register ctx2 name2 members2 st1 = (SlotsFull, st1))
    /\ List.length (teams (data (snd (register ctx2 name2 members2 st1))))
       = List.length (teams (data st1)).
Proof.
  intros ctx1 name1 members1 st st1 ctx2 name2 members2 E Hlow.
  assert (Hin : name_registered name2 (teams (data st1)) = true).
  { destruct (register_cases ctx1 name1 members1 st)
      as [[_ E']|[[_ [_ E']]|[_ [_ E']]]]; rewrite E' in E;
      try discriminate.
    injection E as <-. simpl. apply name_registered_In.
    rewrite map_app, in_app_iff. right. simpl. left. now rewrite Hlow. }
  destruct (register_cases ctx2 name2 members2 st1)
    as [[Hf E2]|[[Hlt [_ E2]]|[_ [Hn _]]]].
  - repeat split; intros; try lia; rewrite E2; reflexivity.
  - repeat split; intros; try lia; rewrite E2; reflexivity.
  - congruence.
Qed.

Lemma confirm_loop_none ctx ts st :
  (forall t, In t ts -> captain_id t <> author_id ctx) ->
  confirm_loop ctx ts st = (NoTeamForCaller, st).
Proof.
  induction ts as [|t ts IH]; simpl; intros H; [reflexivity|].
  destruct (Z.eqb_spec (captain_id t) (author_id ctx)) as [E|_].
  - exfalso. apply (H t); auto.
  - apply IH. intros t' Ht'. apply H. auto.
Qed.

(** [confirm] in terms of the earliest team of the caller. *)
Lemma confirm_loop_first ctx ts st :
  confirm_loop ctx ts st =
  match first_team (author_id ctx) ts with
  | None => (NoTeamForCaller, st)
  | Some t =>
      if contains (team_name t) (confirmed (data st))
      then (AlreadyConfirmed, st)
      else (Confirmed (team_name t),
            saved {| slots := slots (data st); teams := teams (data st);
                     confirmed := confirmed (data st) ++ [team_name t] |} st)
  end.
Proof.
  unfold first_team. induction ts as [|t ts IH]; simpl; [reflexivity|].
  destruct (captain_id t =? author_id ctx); [reflexivity | exact IH].
Qed.

Lemma first_team_some caller ts :
  (exists t, In t ts /\ captain_id t = caller) ->
  exists t, first_team caller ts = Some t /\ In t ts /\ captain_id t = caller.
Proof.
  intros [t [Hin Hc]]. unfold first_team.
  destruct (find (fun t0 => captain_id t0 =? caller) ts) as [t'|] eqn:F.
  - apply find_some in F. destruct F as [Hin' Hc'].
    exists t'. rewrite Z.eqb_eq in Hc'. auto.
  - exfalso. apply (find_none _ _ F) in Hin. rewrite Z.eqb_neq in Hin. auto.
Qed.

Lemma first_team_app caller ts ext t :
  first_team caller ts = Some t -> first_team caller (ts ++ ext) = Some t.
Proof.
  unfold first_team. induction ts as [|x ts IH]; simpl; [discriminate|].
  destruct (captain_id x =? caller); auto.
Qed.

(** C3: for a caller who captains a team, [confirm] leaves the confirmed
    names as they are or appends one name that was not among them, so a list
    without duplicates stays so; and every later [confirm] by the same
    caller reports that the team is already confirmed and changes nothing,
    however often it is repeated. *)
Theorem confirm_idempotent :
  forall ctx st,
    (exists t, In t (teams (data st)) /\ captain_id t = author_id ctx) ->
    let st1 := snd (confirm ctx st) in
    (confirmed (data st1) = confirmed (data st)
     \/ exists t, In t (teams (data st)) /\ captain_id t = author_id ctx
                  /\ ~ In (team_name t) (confirmed (data st))
                  /\ confirmed (data st1)
                     = confirmed (data st) ++ [team_name t])
    /\ (NoDup (confirmed (data st)) -> NoDup (confirmed (data st1)))
    /\ (forall n ctx', author_id ctx' = author_id ctx ->
          Nat.iter n (fun s => snd (confirm ctx' s)) st1 = st1
          /\ confirm ctx' st1 = (AlreadyConfirmed, st1)).
Proof.
  intros ctx st H. apply first_team_some in H. destruct H as [t [F [Hin Hc]]].
  assert (Hagain : forall ctx', author_id ctx' = author_id ctx ->
            confirm ctx' (snd (confirm ctx st))
            = (AlreadyConfirmed, snd (confirm ctx st))).
  { intros ctx' Hid. unfold confirm. rewrite !confirm_loop_first, Hid, F.
    destruct (contains (team_name t) (confirmed (data st))) eqn:C; simpl.
    - rewrite F, C. reflexivity.
    - rewrite F, contains_app. simpl. rewrite String.eqb_refl, orb_true_r.
      reflexivity. }
  split; [|split].
  - simpl. unfold confirm. rewrite confirm_loop_first, F.
    destruct (contains (team_name t) (confirmed (data st))) eqn:C; simpl.
    + left. reflexivity.
    + right. exists t. repeat split; auto.
      intros Hc'. apply contains_In in Hc'. congruence.
  - simpl. unfold confirm. rewrite confirm_loop_first, F.
    destruct (contains (team_name t) (confirmed (data st))) eqn:C; simpl.
    + auto.
    + intros Hnd.
      apply NoDup_app; [exact Hnd | repeat constructor; simpl; tauto|].
      intros x Hx [<-|[]]. apply contains_In in Hx. congruence.
  - intros n ctx' Hid. split; [|now apply Hagain].
    induction n as [|n IH]; simpl; [reflexivity|].
    rewrite IH, (Hagain ctx' Hid). reflexivity.
Qed.

Lemma step_keeps_invariant ctx c st :
  confirmed_are_teams (data st) ->
  confirmed_are_teams (data (snd (step ctx c st))).
Proof.
  intros Inv. destruct c; simpl.
  - unfold setslots, has_permissions.
    destruct (administrator ctx); simpl; exact Inv.
  - destruct (register_cases ctx name members st)
      as [[_ E]|[[_ [_ E]]|[_ [_ E]]]]; rewrite E; simpl; try exact Inv.
    intros x Hx. destruct (Inv x Hx) as [t [Ht Hn]].
    exists t. split; [apply in_or_app; auto | exact Hn].
  - unfold confirm. rewrite confirm_loop_first.
    destruct (first_team (author_id ctx) (teams (data st))) as [t|] eqn:F;
      [|exact Inv].
    destruct (contains (team_name t) (confirmed (data st))); [exact Inv|].
    simpl. intros x Hx. apply in_app_or in Hx. destruct Hx as [Hx|[<-|[]]].
    + exact (Inv x Hx).
    + exists t. split; [|reflexivity].
      unfold first_team in F. apply find_some in F. tauto.
  - exact Inv.
  - unfold list_teams, has_permissions.
    destruct (administrator ctx); [|exact Inv].
    destruct (teams (data st)) eqn:E; simpl; rewrite ?E; exact Inv.
  - unfold reset, has_permissions.
    destruct (administrator ctx); simpl; [intros x []|exact Inv].
Qed.

(** C4: in every state reached from the default empty record by any
    sequence of invocations of the commands, by any users, each confirmed
    name is the name of a team in [teams]. *)
Theorem confirmed_names_are_teams :
  forall l : list (context * command),
    confirmed_are_teams (data (run l initial)).
Proof.
  intros l.
  assert (H : forall st, confirmed_are_teams (data st) ->
                         confirmed_are_teams (data (run l st))).
  { induction l as [|[ctx c] l IH]; intros st Inv; simpl; [exact Inv|].
    apply IH, step_keeps_invariant, Inv. }
  apply H. intros x [].
Qed.

(** C7: [reset] by an administrator replaces the record with the default
    empty one, and [slots] on the state it leaves reports zero filled out of
    zero. *)
Theorem reset_then_slots :
  forall ctx st,
    administrator ctx = true ->
    let st' := snd (reset ctx st) in
    fst (reset ctx st) = ResetDone
    /\ data st' = default_data
    /\ forall ctx', slots_status ctx' st' = (SlotsStatus 0 0, st').
Proof.
  intros ctx st Hadm. unfold reset, has_permissions. rewrite Hadm. simpl.
  repeat split.
Qed.

(** C8: when no team has the caller as its captain, [confirm] answers that
    the caller has no registered team and the state is unchanged. *)
Theorem confirm_without_team :
  forall ctx st,
    (forall t, In t (teams (data st)) -> captain_id t <> author_id ctx) ->
    confirm ctx st = (NoTeamForCaller, st).
Proof.
  intros ctx st H. apply confirm_loop_none, H.
Qed.

(** C9: [register] tests the capacity before the names: with at least
    [slots] teams, a call whose name is already registered in another case
    answers that all slots are full, not that the name is taken. *)
Theorem register_full_before_duplicate :
  forall ctx name members st,
    Z.of_nat (List.length (teams (data st))) >= slots (data st) ->
    name_registered name (teams (data st)) = true ->
    register ctx name members st = (SlotsFull, st)
    /\ fst (register ctx name members st) <> DuplicateTeamName.
Proof.
  intros ctx name members st Hfull _.
  destruct (register_cases ctx name members st)
    as [[_ E]|[[Hlt _]|[Hlt _]]]; try lia.
  rewrite E. split; [reflexivity | discriminate].
Qed.

Lemma step_keeps_first_team ctx c st caller t :
  no_reset [(ctx, c)] = true ->
  first_team caller (teams (data st)) = Some t ->
  first_team caller (teams (data (snd (step ctx c st)))) = Some t
  /\ (In (team_name t) (confirmed (data st)) ->
      In (team_name t) (confirmed (data (snd (step ctx c st))))).
Proof.
  intros Hnr F. destruct c; simpl in *.
  - unfold setslots, has_permissions.
    destruct (administrator ctx); simpl; auto.
  - destruct (register_cases ctx name members st)
      as [[_ E]|[[_ [_ E]]|[_ [_ E]]]]; rewrite E; simpl; auto.
    split; [now apply first_team_app | auto].
  - unfold confirm. rewrite confirm_loop_first.
    destruct (first_team (author_id ctx) (teams (data st))) as [t'|];
      [|auto].
    destruct (contains (team_name t') (confirmed (data st))); simpl; auto.
    split; [exact F | intros H; apply in_or_app; auto].
  - auto.
  - unfold list_teams, has_permissions.
    destruct (administrator ctx); [|auto].
    destruct (teams (data st)) eqn:E; simpl; rewrite ?E; auto.
  - unfold reset, has_permissions.
    destruct (administrator ctx); [discriminate | auto].
Qed.

Lemma run_keeps_first_team l : forall st caller t,
  no_reset l = true ->
  first_team caller (teams (data st)) = Some t ->
  first_team caller (teams (data (run l st))) = Some t
  /\ (In (team_name t) (confirmed (data st)) ->
      In (team_name t) (confirmed (data (run l st)))).
Proof.
  induction l as [|[ctx c] l IH]; intros st caller t Hnr F; simpl; [auto|].
  simpl in Hnr. apply andb_prop in Hnr. destruct Hnr as [H1 H2].
  destruct (step_keeps_first_team ctx c st caller t) as [F1 C1]; auto.
  { simpl. now rewrite H1. }
  destruct (IH (snd (step ctx c st)) caller t H2 F1) as [F2 C2]. auto.
Qed.

(** C10: when [t] is the earliest team whose captain is the caller,
    [confirm] by the caller confirms the name of [t] or reports that it is
    already confirmed, and adds no other name, so a later team of the same
    captain is never confirmed by that captain; this stays so after any
    invocations that do not reset the record, whatever other teams the
    caller registers, and once the name of [t] is confirmed every later
    [confirm] by the caller reports that it is already confirmed and
    changes nothing. *)
Theorem confirm_acts_on_earliest_team :
  forall ctx st t,
    first_team (author_id ctx) (teams (data st)) = Some t ->
    forall l, no_reset l = true ->
      let st' := run l st in
      (confirm ctx st' = (AlreadyConfirmed, st')
       /\ In (team_name t) (confirmed (data st'))
       \/ confirm ctx st'
          = (Confirmed (team_name t),
             saved {| slots := slots (data st'); teams := teams (data st');
                      confirmed := confirmed (data st') ++ [team_name t] |}
               st')
          /\ ~ In (team_name t) (confirmed (data st')))
      /\ (forall name,
            In name (confirmed (data (snd (confirm ctx st')))) ->
            In name (confirmed (data st')) \/ name = team_name t)
      /\ (In (team_name t) (confirmed (data st)) ->
          confirm ctx st' = (AlreadyConfirmed, st')).
Proof.
  intros ctx st t F l Hnr.
  destruct (run_keeps_first_team l st (author_id ctx) t Hnr F) as [F' C'].
  simpl. unfold confirm. rewrite confirm_loop_first, F'.
  destruct (contains (team_name t) (confirmed (data (run l st)))) eqn:C.
  - split; [left; split; [reflexivity | now apply contains_In]|].
    split; [simpl; auto | auto].
  - split; [|split].
    + right. split; [reflexivity|]. intros H. apply contains_In in H.
      congruence.
    + simpl. intros name H. apply in_app_or in H.
      destruct H as [H|[H|[]]]; auto.
    + intros H. apply C', contains_In in H. congruence.
Qed.

(** * Properties of the encoder and decoder *)



















Lemma digit_value_start c :
  is_digit c = true -> is_ws c = false /\ Ascii.eqb c "]" = false.
Proof.
  destruct c as [[] [] [] [] [] [] [] []]; simpl; intros H;
    try discriminate; auto.
Qed.

Lemma string_of_uint_head u :
  u <> Decimal.Nil ->
  exists c r, DecimalString.NilEmpty.string_of_uint u = String c r
              /\ is_digit c = true.
Proof. destruct u; intros H; try congruence; simpl; eauto. Qed.





















(** ** The decoder terminates within its fuel *)

Local Open Scope nat_scope.

Lemma skip_ws_length s : String.length (skip_ws s) <= String.length s.
Proof.
  induction s as [|c s IH]; simpl; [lia|].
  destruct (is_ws c); simpl; lia.
Qed.

Lemma strip_prefix_length p : forall s r,
  strip_prefix p s = Some r ->
  String.length s = String.length p + String.length r.
Proof.
  induction p as [|a p IH]; intros [|b s] r H; simpl in *;
    try discriminate; try (injection H as <-; reflexivity).
  destruct (Ascii.eqb a b); [|discriminate].
  rewrite (IH s r H). reflexivity.
Qed.

Lemma scan_digits_length s :
  String.length (snd (scan_digits s)) <= String.length s.
Proof.
  induction s as [|c s IH]; simpl; [lia|].
  destruct (digit_of c); simpl; [|lia].
  destruct (scan_digits s); simpl in *. lia.
Qed.

Lemma scan_number_shorter s v r :
  scan_number s = Ok (v, r) -> String.length r < String.length s.
Proof.
  unfold scan_number.
  assert (M : forall s1 u r1, match_integer s1 = Some (u, r1) ->
                String.length r1 < String.length s1).
  { intros [|c s1] u r1; simpl; [discriminate|].
    destruct (Ascii.eqb c "0"); [intros [= _ <-]; lia|].
    destruct (digit_of c); [|discriminate].
    pose proof (scan_digits_length s1) as L.
    destruct (scan_digits s1); simpl in L. intros [= _ <-]. lia. }
  destruct s as [|c s]; simpl.
  - discriminate.
  - destruct (Ascii.eqb c "-").
    + destruct (match_integer s) as [[u r1]|] eqn:E.
      * apply M in E. destruct (float_tail r1); [discriminate|].
        intros [= _ <-]. lia.
      * destruct (_ || _); discriminate.
    + destruct (match_integer (String c s)) as [[u r1]|] eqn:E.
      * apply M in E. destruct (float_tail r1); [discriminate|].
        intros [= _ <-]. simpl in E. lia.
      * destruct (_ || _); discriminate.
Qed.

Lemma scan_number_fuel s : scan_number s <> Raise OutOfFuel.
Proof.
  unfold scan_number.
  destruct (match s with
            | EmptyString => (false, s)
            | String c r => if Ascii.eqb c "-" then (true, r) else (false, s)
            end) as [neg s1].
  destruct (match_integer s1) as [[u r]|].
  - destruct (float_tail r); discriminate.
  - destruct (_ || _); discriminate.
Qed.

Lemma scanstring_total : forall n s, String.length s <= n ->
  scanstring s <> Raise OutOfFuel
  /\ forall t r, scanstring s = Ok (t, r) -> String.length r < String.length s.
Proof.
  induction n as [|n IH]; intros s Hn.
  - destruct s; simpl in *; [|lia].
    split; [discriminate | intros; discriminate].
  - destruct s as [|c s]; [split; [discriminate | intros; discriminate]|].
    simpl in Hn. cbn [scanstring].
    destruct (Ascii.eqb c dquote).
    { split; [discriminate|]. intros t r [= _ <-]. simpl. lia. }
    destruct (Ascii.eqb c backslash).
    { destruct s as [|e r1]; [split; [discriminate | intros; discriminate]|].
      destruct (Ascii.eqb e "u").
      - destruct r1 as [|h1 [|h2 [|h3 [|h4 r2]]]];
          try (split; [discriminate | intros; discriminate]).
        destruct (hex4_value h1 h2 h3 h4) as [m|];
          [|split; [discriminate | intros; discriminate]].
        destruct (m <? 256)%N;
          [|split; [discriminate | intros; discriminate]].
        destruct (IH r2) as [F L]; [simpl in Hn; lia|].
        destruct (scanstring r2) as [[t r3]|e'] eqn:E; simpl.
        + split; [discriminate|]. intros t' r' [= _ <-].
          specialize (L t r3 eq_refl). simpl. lia.
        + split; [congruence | intros; discriminate].
      - destruct (unescape e);
          [|split; [discriminate | intros; discriminate]].
        destruct (IH r1) as [F L]; [simpl in Hn; lia|].
        destruct (scanstring r1) as [[t r3]|e'] eqn:E; simpl.
        + split; [discriminate|]. intros t' r' [= _ <-].
          specialize (L t r3 eq_refl). simpl. lia.
        + split; [congruence | intros; discriminate]. }
    destruct (N_of_ascii c <? 32)%N;
      [split; [discriminate | intros; discriminate]|].
    destruct (IH s) as [F L]; [lia|].
    destruct (scanstring s) as [[t r3]|e'] eqn:E; simpl.
    + split; [discriminate|]. intros t' r' [= _ <-].
      specialize (L t r3 eq_refl). simpl. lia.
    + split; [congruence | intros; discriminate].
Qed.

Lemma scanstring_fuel s : scanstring s <> Raise OutOfFuel.
Proof. apply (scanstring_total (String.length s) s). lia. Qed.

Lemma scanstring_shorter s t r :
  scanstring s = Ok (t, r) -> String.length r < String.length s.
Proof. apply (scanstring_total (String.length s) s). lia. Qed.

(** Closes the cases where the decoder raises something else. *)
Ltac bad := solve [discriminate | intros; discriminate | congruence].

Lemma scan_shorter : forall fuel,
  (forall s v r, scan_once fuel s = Ok (v, r) ->
     String.length r < String.length s)
  /\ (forall s vs r, array_items fuel s = Ok (vs, r) ->
        String.length r < String.length s)
  /\ (forall s kvs r, object_members fuel s = Ok (kvs, r) ->
        String.length r < String.length s).
Proof.
  induction fuel as [|f [IH1 [IH2 IH3]]];
    [repeat split; intros; discriminate|].
  split; [|split].
  - intros [|c s] v r; cbn [scan_once]; [bad|].
    destruct (Ascii.eqb c dquote).
    { destruct (scanstring s) as [[t r1]|] eqn:E; simpl; [|bad].
      intros [= _ <-]. apply scanstring_shorter in E. simpl. lia. }
    destruct (Ascii.eqb c "{").
    { pose proof (skip_ws_length s) as W.
      destruct (skip_ws s) as [|c1 r1]; [bad|]. simpl in W.
      destruct (Ascii.eqb c1 "}"); [intros [= _ <-]; simpl; lia|].
      destruct (Ascii.eqb c1 dquote); [|bad].
      destruct (object_members f r1) as [[kvs r2]|] eqn:E; simpl; [|bad].
      intros [= _ <-]. apply IH3 in E. simpl. lia. }
    destruct (Ascii.eqb c "[").
    { pose proof (skip_ws_length s) as W.
      destruct (skip_ws s) as [|c1 r1]; [bad|]. simpl in W.
      destruct (Ascii.eqb c1 "]"); [intros [= _ <-]; simpl; lia|].
      destruct (array_items f (String c1 r1)) as [[vs r2]|] eqn:E; simpl;
        [|bad].
      intros [= _ <-]. apply IH2 in E. simpl in *. lia. }
    destruct (strip_prefix "null" (String c s)) as [r1|] eqn:E1.
    { intros [= _ <-]. apply strip_prefix_length in E1. simpl in *. lia. }
    destruct (strip_prefix "true" (String c s)) as [r1|] eqn:E2.
    { intros [= _ <-]. apply strip_prefix_length in E2. simpl in *. lia. }
    destruct (strip_prefix "false" (String c s)) as [r1|] eqn:E3.
    { intros [= _ <-]. apply strip_prefix_length in E3. simpl in *. lia. }
    apply scan_number_shorter.
  - intros s vs r; cbn [array_items].
    destruct (scan_once f s) as [[v r0]|] eqn:E; simpl; [|bad].
    apply IH1 in E. pose proof (skip_ws_length r0) as W.
    destruct (skip_ws r0) as [|c r1]; [bad|]. simpl in W.
    destruct (Ascii.eqb c "]"); [intros [= _ <-]; lia|].
    destruct (Ascii.eqb c ","); [|bad].
    pose proof (skip_ws_length r1) as W1.
    destruct (array_items f (skip_ws r1)) as [[vs' r2]|] eqn:E'; simpl;
      [|bad].
    intros [= _ <-]. apply IH2 in E'. lia.
  - intros s kvs r; cbn [object_members].
    destruct (scanstring s) as [[key r0]|] eqn:E; simpl; [|bad].
    apply scanstring_shorter in E. pose proof (skip_ws_length r0) as W.
    destruct (skip_ws r0) as [|c r1]; [bad|]. simpl in W.
    destruct (Ascii.eqb c ":"); [|bad].
    pose proof (skip_ws_length r1) as W1.
    destruct (scan_once f (skip_ws r1)) as [[v r2]|] eqn:E'; simpl; [|bad].
    apply IH1 in E'. pose proof (skip_ws_length r2) as W2.
    destruct (skip_ws r2) as [|c2 r3]; [bad|]. simpl in W2.
    destruct (Ascii.eqb c2 "}"); [intros [= _ <-]; lia|].
    destruct (Ascii.eqb c2 ","); [|bad].
    pose proof (skip_ws_length r3) as W3.
    destruct (skip_ws r3) as [|c3 r4]; [bad|]. simpl in W3.
    destruct (Ascii.eqb c3 dquote); [|bad].
    destruct (object_members f r4) as [[kvs' r5]|] eqn:E''; simpl; [|bad].
    intros [= _ <-]. apply IH3 in E''. lia.
Qed.

Lemma scan_fuel : forall fuel,
  (forall s, 2 * String.length s + 1 <= fuel ->
     scan_once fuel s <> Raise OutOfFuel)
  /\ (forall s, 2 * String.length s + 2 <= fuel ->
        array_items fuel s <> Raise OutOfFuel)
  /\ (forall s, 2 * String.length s + 2 <= fuel ->
        object_members fuel s <> Raise OutOfFuel).
Proof.
  induction fuel as [|f [IH1 [IH2 IH3]]];
    [repeat split; intros; lia|].
  split; [|split].
  - intros [|c s] Hf; cbn [scan_once]; [bad|]. simpl in Hf.
    destruct (Ascii.eqb c dquote).
    { pose proof (scanstring_fuel s).
      destruct (scanstring s) as [[t r1]|]; simpl; [bad | congruence]. }
    destruct (Ascii.eqb c "{").
    { pose proof (skip_ws_length s) as W.
      destruct (skip_ws s) as [|c1 r1]; [bad|]. simpl in W.
      destruct (Ascii.eqb c1 "}"); [bad|].
      destruct (Ascii.eqb c1 dquote); [|bad].
      assert (F : object_members f r1 <> Raise OutOfFuel)
        by (apply IH3; lia).
      destruct (object_members f r1) as [[kvs r2]|]; simpl;
        [bad | congruence]. }
    destruct (Ascii.eqb c "[").
    { pose proof (skip_ws_length s) as W.
      destruct (skip_ws s) as [|c1 r1]; [bad|]. simpl in W.
      destruct (Ascii.eqb c1 "]"); [bad|].
      assert (F : array_items f (String c1 r1) <> Raise OutOfFuel)
        by (apply IH2; simpl; lia).
      destruct (array_items f (String c1 r1)) as [[vs r2]|]; simpl;
        [bad | congruence]. }
    destruct (strip_prefix "null" (String c s)); [bad|].
    destruct (strip_prefix "true" (String c s)); [bad|].
    destruct (strip_prefix "false" (String c s)); [bad|].
    apply scan_number_fuel.
  - intros s Hf; cbn [array_items].
    assert (F : scan_once f s <> Raise OutOfFuel) by (apply IH1; lia).
    destruct (scan_once f s) as [[v r0]|] eqn:E; simpl; [|congruence].
    apply scan_shorter in E. pose proof (skip_ws_length r0) as W.
    destruct (skip_ws r0) as [|c r1]; [bad|]. simpl in W.
    destruct (Ascii.eqb c "]"); [bad|].
    destruct (Ascii.eqb c ","); [|bad].
    pose proof (skip_ws_length r1) as W1.
    assert (F' : array_items f (skip_ws r1) <> Raise OutOfFuel)
      by (apply IH2; lia).
    destruct (array_items f (skip_ws r1)) as [[vs' r2]|]; simpl;
      [bad | congruence].
  - intros s Hf; cbn [object_members].
    pose proof (scanstring_fuel s) as F0.
    destruct (scanstring s) as [[key r0]|] eqn:E; simpl; [|congruence].
    apply scanstring_shorter in E. pose proof (skip_ws_length r0) as W.
    destruct (skip_ws r0) as [|c r1]; [bad|]. simpl in W.
    destruct (Ascii.eqb c ":"); [|bad].
    pose proof (skip_ws_length r1) as W1.
    assert (F : scan_once f (skip_ws r1) <> Raise OutOfFuel)
      by (apply IH1; lia).
    destruct (scan_once f (skip_ws r1)) as [[v r2]|] eqn:E'; simpl;
      [|congruence].
    apply scan_shorter in E'. pose proof (skip_ws_length r2) as W2.
    destruct (skip_ws r2) as [|c2 r3]; [bad|]. simpl in W2.
    destruct (Ascii.eqb c2 "}"); [bad|].
    destruct (Ascii.eqb c2 ","); [|bad].
    pose proof (skip_ws_length r3) as W3.
    destruct (skip_ws r3) as [|c3 r4]; [bad|]. simpl in W3.
    destruct (Ascii.eqb c3 dquote); [|bad].
    assert (F' : object_members f r4 <> Raise OutOfFuel)
      by (apply IH3; lia).
    destruct (object_members f r4) as [[kvs' r5]|]; simpl;
      [bad | congruence].
Qed.

(** The fuel of [json_loads] is never used up: the decoder returns a value
    or raises on every text. *)
Lemma json_loads_total s : json_loads s <> Raise OutOfFuel.
Proof.
  unfold json_loads.
  pose proof (skip_ws_length s) as W.
  assert (F : scan_once (2 * String.length s + 2) (skip_ws s)
              <> Raise OutOfFuel).
  { apply scan_fuel. lia. }
  destruct (scan_once (2 * String.length s + 2) (skip_ws s))
    as [[o r]|]; simpl; [|congruence].
  destruct (skip_ws r); discriminate.
Qed.

Local Open Scope Z_scope.

(** * Properties of the record store *)


(** C6, as amended: [load_data] returns the default empty record when the
    file does not exist; when the file exists and its text does not decode,
    what [json.load] raises reaches the caller. *)
Theorem load_data_absent_or_undecodable :
  (load_data None = Ok (to_json default_data)
   /\ of_json (to_json default_data) = Some default_data)
  /\ (forall text e,
        json_loads text = Raise e -> load_data (Some text) = Raise e).
Proof.
  split; [split; reflexivity|]. intros text e H. exact H.
Qed.

(** * The properties at concrete inputs *)

(** The scenario of two slots and three teams: the third [register] finds
    all slots full and [slots] reports two out of two. *)
Example register_third_of_two :
  let st := run [(user 11, CmdRegister "Alpha" ["p1"; "p2"]);
                 (user 12, CmdRegister "Beta" [])] (opened 2) in
  fst (register (user 13) "Gamma" [] st) = SlotsFull
  /\ fst (slots_status (user 13) st) = SlotsStatus 2 2.
Proof. split; reflexivity. Qed.

Lemma register_respects_capacity_witness :
  let calls := [(user 11, "Alpha", ["p1"; "p2"]); (user 12, "Beta", [])] in
  let st' := run (registrations calls) (opened 2) in
  (slots (data (opened 2)) = Z.of_nat 2
   /\ List.length calls = 2%nat
   /\ NoDup (lower_names calls))
  /\ register (user 13) "Gamma" [] st' = (SlotsFull, st').
Proof.
  assert (Hnd : NoDup (lower_names
            [(user 11, "Alpha", ["p1"; "p2"]); (user 12, "Beta", [])])).
  { repeat constructor; simpl; intuition discriminate. }
  split; [repeat split; exact Hnd|].
  exact (proj1 (register_respects_capacity 2 (opened 2)
                  [(user 11, "Alpha", ["p1"; "p2"]); (user 12, "Beta", [])]
                  (user 13) "Gamma" [] eq_refl eq_refl Hnd)).
Defined.

(** C2, as stated, fails when the first call takes the last slot: with one
    slot, ["alpha"] is registered and ["ALPHA"], the same name in lower
    case, is answered that all slots are full. *)
Lemma register_same_name_last_slot :
  let st1 := snd (register (user 11) "alpha" [] (opened 1)) in
  register (user 11) "alpha" [] (opened 1) = (Registered "alpha" [], st1)
  /\ lower "ALPHA" = lower "alpha"
  /\ register (user 12) "ALPHA" [] st1 = (SlotsFull, st1)
  /\ fst (register (user 12) "ALPHA" [] st1) <> DuplicateTeamName.
Proof.
  repeat split. discriminate.
Qed.

Lemma register_same_name_again_witness :
  let st1 := snd (register (user 11) "alpha" [] (opened 2)) in
  (register (user 11) "alpha" [] (opened 2) = (Registered "alpha" [], st1)
   /\ lower "ALPHA" = lower "alpha"
   /\ Z.of_nat (List.length (teams (data st1))) < slots (data st1))
  /\ register (user 12) "ALPHA" [] st1 = (DuplicateTeamName, st1).
Proof.
  split; [repeat split|].
  apply (proj1 (register_same_name_again (user 11) "alpha" [] (opened 2)
                  (snd (register (user 11) "alpha" [] (opened 2)))
                  (user 12) "ALPHA" [] eq_refl eq_refl)).
  reflexivity.
Defined.

Lemma confirm_idempotent_witness :
  let st1 := snd (confirm (user 11) three_teams) in
  (exists t, In t (teams (data three_teams))
             /\ captain_id t = author_id (user 11))
  /\ confirmed (data st1) = ["Alpha"]
  /\ confirm (user 11) st1 = (AlreadyConfirmed, st1).
Proof.
  assert (H : exists t, In t (teams (data three_teams))
                        /\ captain_id t = author_id (user 11)).
  { eexists. split; [left; reflexivity | reflexivity]. }
  split; [exact H|]. split; [reflexivity|].
  exact (proj2 (proj2 (proj2 (confirm_idempotent (user 11) three_teams H))
                  1%nat (user 11) eq_refl)).
Defined.

Lemma reset_then_slots_witness :
  administrator admin = true
  /\ data (snd (reset admin three_teams)) = default_data
  /\ slots_status (user 12) (snd (reset admin three_teams))
     = (SlotsStatus 0 0, snd (reset admin three_teams)).
Proof.
  split; [reflexivity|].
  pose proof (reset_then_slots admin three_teams eq_refl) as H.
  split; [exact (proj1 (proj2 H)) | exact (proj2 (proj2 H) (user 12))].
Defined.

(** The scenario of a [confirm] by a user who registered nothing. *)
Lemma confirm_without_team_witness :
  let st := snd (register (user 11) "Alpha" [] (opened 2)) in
  (forall t, In t (teams (data st)) -> captain_id t <> author_id (user 12))
  /\ confirm (user 12) st = (NoTeamForCaller, st).
Proof.
  assert (H : forall t,
            In t (teams (data (snd (register (user 11) "Alpha" []
                                      (opened 2))))) ->
            captain_id t <> author_id (user 12)).
  { intros t [<-|[]]. simpl. discriminate. }
  split; [exact H|].
  exact (confirm_without_team (user 12) _ H).
Defined.

Lemma register_full_before_duplicate_witness :
  let st := snd (register (user 11) "alpha" [] (opened 1)) in
  (Z.of_nat (List.length (teams (data st))) >= slots (data st)
   /\ name_registered "ALPHA" (teams (data st)) = true)
  /\ register (user 12) "ALPHA" [] st = (SlotsFull, st).
Proof.
  assert (H : Z.of_nat (List.length (teams (data
                (snd (register (user 11) "alpha" [] (opened 1))))))
              >= slots (data (snd (register (user 11) "alpha" []
                                     (opened 1))))).
  { simpl. lia. }
  split; [split; [exact H | reflexivity]|].
  exact (proj1 (register_full_before_duplicate (user 12) "ALPHA" [] _ H
                  eq_refl)).
Defined.

(** The captain of Alpha and Gamma confirms twice, with a [slots] in
    between: Alpha is confirmed by the first, and Gamma by neither. *)
Lemma confirm_acts_on_earliest_team_witness :
  let l := [(user 11, CmdConfirm); (user 12, CmdSlots)] in
  let st' := run l three_teams in
  (first_team (author_id (user 11)) (teams (data three_teams))
   = Some {| team_name := "Alpha"; players := ["p1"]; captain_id := 11 |}
   /\ no_reset l = true)
  /\ confirm (user 11) st' = (AlreadyConfirmed, st')
  /\ ~ In "Gamma" (confirmed (data (snd (confirm (user 11) st')))).
Proof.
  split; [split; reflexivity|].
  pose proof (confirm_acts_on_earliest_team (user 11) three_teams
                {| team_name := "Alpha"; players := ["p1"];
                   captain_id := 11 |} eq_refl
                [(user 11, CmdConfirm); (user 12, CmdSlots)] eq_refl) as H.
  destruct H as [_ [H _]]. split; [reflexivity|].
  intros G. destruct (H "Gamma" G) as [[E|[]]|E]; discriminate.
Defined.

(** What is saved reads back: the file written by the last [register] of
    [three_teams] decodes to the record in memory. *)
Example saved_file_reads_back :
  bind (load_data (file three_teams)) (fun o => Ok (of_json o))
  = Ok (Some (data three_teams)).
Proof. vm_compute. reflexivity. Qed.

(** C6, as stated, fails on a file that exists and does not decode: on the
    text of a save cut after its first character, [load_data] raises and
    does not return the default record. *)
Lemma load_data_undecodable_raises :
  json_loads "{" = Raise JSONDecodeError
  /\ load_data (Some "{") = Raise JSONDecodeError
  /\ load_data (Some "{") <> Ok (to_json default_data).
Proof.
  repeat split. discriminate.
Qed.

Lemma load_data_absent_or_undecodable_witness :
  json_loads "{" = Raise JSONDecodeError
  /\ load_data (Some "{") = Raise JSONDecodeError.
Proof.
  split; [reflexivity|].
  exact (proj2 load_data_absent_or_undecodable "{" JSONDecodeError eq_refl).
Defined.

(** * Further properties of the handlers *)

(** What one invocation does: nothing, with a reply that reports it, or one
    of the four assignments, each followed by [save_data]. *)
Lemma step_effect ctx c st :
  (step ctx c st = (fst (step ctx c st), st)
   /\ unchanged_reply (fst (step ctx c st)) = true)
  \/ (exists n, c = CmdSetSlots n /\ administrator ctx = true
        /\ step ctx c st
           = (SlotsSet n,
              saved {| slots := n; teams := teams (data st);
                       confirmed := confirmed (data st) |} st))
  \/ (exists name members,
        c = CmdRegister name members
        /\ Z.of_nat (List.length (teams (data st))) < slots (data st)
        /\ name_registered name (teams (data st)) = false
        /\ step ctx c st
           = (Registered name members,
              saved {| slots := slots (data st);
                       teams := teams (data st)
                                ++ [{| team_name := name; players := members;
                                       captain_id := author_id ctx |}];
                       confirmed := confirmed (data st) |} st))
  \/ (exists t, c = CmdConfirm
        /\ first_team (author_id ctx) (teams (data st)) = Some t
        /\ contains (team_name t) (confirmed (data st)) = false
        /\ step ctx c st
           = (Confirmed (team_name t),
              saved {| slots := slots (data st); teams := teams (data st);
                       confirmed := confirmed (data st) ++ [team_name t] |}
                st))
  \/ (c = CmdReset /\ administrator ctx = true
      /\ step ctx c st = (ResetDone, saved default_data st)).
Proof.
  destruct c as [n | name members | | | |]; simpl.
  - unfold setslots, has_permissions.
    destruct (administrator ctx) eqn:A; [|left; split; reflexivity].
    right. left. exists n. auto.
  - destruct (register_cases ctx name members st)
      as [[_ E]|[[_ [_ E]]|[Hlt [Hn E]]]]; rewrite E;
      try (left; split; reflexivity).
    right. right. left. exists name, members. auto.
  - unfold confirm. rewrite confirm_loop_first.
    destruct (first_team (author_id ctx) (teams (data st))) as [t|] eqn:F;
      [|left; split; reflexivity].
    destruct (contains (team_name t) (confirmed (data st))) eqn:C;
      [left; split; reflexivity|].
    right. right. right. left. exists t. auto.
  - left. split; reflexivity.
  - unfold list_teams, has_permissions.
    destruct (administrator ctx); [|left; split; reflexivity].
    destruct (teams (data st)); left; split; reflexivity.
  - unfold reset, has_permissions.
    destruct (administrator ctx) eqn:A; [|left; split; reflexivity].
    right. right. right. right. auto.
Qed.

(** Decomposes [step_effect] into its five cases, rewriting the step. *)
Ltac step_cases ctx c st :=
  let E := fresh "E" in
  destruct (step_effect ctx c st)
    as [[E ?] | [[? [? [? E]]] | [[? [? [? [? [? E]]]]]
       | [[? [? [? [? E]]]] | [? [? E]]]]]];
  rewrite E in *; simpl in *.

Lemma run_invariant (P : state -> Prop) :
  (forall ctx c st, P st -> P (snd (step ctx c st))) ->
  forall l st, P st -> P (run l st).
Proof.
  intros Hstep l. induction l as [|[ctx c] l IH]; intros st H; simpl; auto.
Qed.

(** X1: in every state reached from the default empty record, no two teams
    have the same name once in lower case. *)
Theorem team_names_stay_distinct :
  forall l : list (context * command),
    names_distinct (data (run l initial)).
Proof.
  intros l. apply run_invariant; [|constructor].
  intros ctx c st H. unfold names_distinct in *.
  step_cases ctx c st; try assumption; [|constructor].
  rewrite map_app. apply NoDup_app; [exact H | repeat constructor; simpl; tauto|].
  intros nm Hnm [<-|[]]. simpl in Hnm.
  match goal with Hn : name_registered _ _ = false |- _ =>
    apply name_registered_In in Hnm; congruence end.
Qed.

(** X2: in every state reached from the default empty record, no name is
    confirmed twice, and there are at most as many confirmed names as
    teams. *)
Theorem confirmed_has_no_duplicates :
  forall l : list (context * command),
    let d := data (run l initial) in
    NoDup (confirmed d)
    /\ (List.length (confirmed d) <= List.length (teams d))%nat.
Proof.
  intros l.
  assert (H : NoDup (confirmed (data (run l initial)))
              /\ confirmed_are_teams (data (run l initial))).
  { apply (run_invariant (fun st => NoDup (confirmed (data st))
                                    /\ confirmed_are_teams (data st)));
      [|split; [constructor | intros x []]].
    intros ctx c st [Hnd Hin]. split; [|now apply step_keeps_invariant].
    step_cases ctx c st; try assumption; [|constructor].
    apply NoDup_app; [exact Hnd | repeat constructor; simpl; tauto|].
    intros nm Hnm [<-|[]].
    match goal with Hc : contains _ _ = false |- _ =>
      apply contains_In in Hnm; congruence end. }
  destruct H as [Hnd Hin]. simpl. split; [exact Hnd|].
  rewrite <- (length_map team_name (teams (data (run l initial)))).
  apply NoDup_incl_length; [exact Hnd|].
  intros nm Hnm. destruct (Hin nm Hnm) as [t [Ht <-]]. now apply in_map.
Qed.


(** X4: an invocation that is answered with a refusal or with a report
    leaves the record and the file as they were. *)
Theorem rejected_command_changes_nothing :
  forall ctx c st,
    unchanged_reply (fst (step ctx c st)) = true ->
    snd (step ctx c st) = st.
Proof.
  intros ctx c st H. step_cases ctx c st; try discriminate. reflexivity.
Qed.

(** X5: an invocation that is answered with a success has written the new
    record to the file before its answer. *)
Theorem accepted_command_is_saved :
  forall ctx c st,
    unchanged_reply (fst (step ctx c st)) = false ->
    file (snd (step ctx c st))
    = Some (json_dumps (to_json (data (snd (step ctx c st))))).
Proof.
  intros ctx c st H. step_cases ctx c st; try reflexivity. congruence.
Qed.

(** X6: whatever users without the administrator permission invoke, the
    number of slots stays the same. *)
Theorem only_administrators_change_slots :
  forall l st,
    no_admin l = true ->
    slots (data (run l st)) = slots (data st).
Proof.
  induction l as [|[ctx c] l IH]; intros st H; simpl in *; [reflexivity|].
  apply andb_prop in H. destruct H as [A H].
  rewrite (IH _ H). apply negb_true_iff in A.
  step_cases ctx c st; congruence.
Qed.

(** X7: as long as no administrator resets the record, teams and confirmed
    names are only added at the end: what was registered or confirmed stays
    so, unchanged and in the same order. *)
Theorem teams_and_confirmed_only_grow :
  forall l st,
    no_reset l = true ->
    exists more_teams more_confirmed,
      teams (data (run l st)) = teams (data st) ++ more_teams
      /\ confirmed (data (run l st)) = confirmed (data st) ++ more_confirmed.
Proof.
  induction l as [|[ctx c] l IH]; intros st H; simpl in *.
  - exists [], []. now rewrite !List.app_nil_r.
  - apply andb_prop in H. destruct H as [A H].
    destruct (IH (snd (step ctx c st)) H) as [e1 [e2 [H1 H2]]].
    rewrite H1, H2. clear IH H1 H2.
    step_cases ctx c st.
    + exists e1, e2. auto.
    + exists e1, e2. auto.
    + eexists. exists e2. rewrite <- List.app_assoc. auto.
    + exists e1. eexists. rewrite <- List.app_assoc. auto.
    + subst c. simpl in A.
      match goal with Ha : administrator ctx = true |- _ =>
        rewrite Ha in A; discriminate end.
Qed.

(** X8: a record with at most [slots] teams stays so under every invocation
    except a [setslots] by an administrator. *)
Theorem capacity_kept_without_setslots :
  forall l st,
    no_setslots l = true ->
    within_capacity (data st) ->
    within_capacity (data (run l st)).
Proof.
  induction l as [|[ctx c] l IH]; intros st H W; simpl in *; [exact W|].
  apply andb_prop in H. destruct H as [A H]. apply IH; [exact H|].
  unfold within_capacity in *.
  step_cases ctx c st; try assumption.
  - subst c. simpl in A.
    match goal with Ha : administrator ctx = true |- _ =>
      rewrite Ha in A; discriminate end.
  - rewrite length_app. simpl. lia.
  - lia.
Qed.


Lemma first_team_last caller ts t :
  first_team caller ts = None -> captain_id t = caller ->
  first_team caller (ts ++ [t]) = Some t.
Proof.
  unfold first_team. intros F C.
  induction ts as [|x ts IH]; simpl in *.
  - rewrite C, Z.eqb_refl. reflexivity.
  - destruct (captain_id x =? caller); [discriminate | auto].
Qed.

(** X10: after a successful [register], [confirm] by the same user never
    answers that the user has no team; when it is the first team of the
    user and its name is not confirmed yet, [confirm] confirms that name. *)
Theorem register_then_confirm :
  forall ctx name members st st1,
    register ctx name members st = (Registered name members, st1) ->
    fst (confirm ctx st1) <> NoTeamForCaller
    /\ (first_team (author_id ctx) (teams (data st)) = None ->
        contains name (confirmed (data st)) = false ->
        fst (confirm ctx st1) = Confirmed name
        /\ confirmed (data (snd (confirm ctx st1)))
           = confirmed (data st) ++ [name]).
Proof.
  intros ctx name members st st1 E.
  destruct (register_cases ctx name members st)
    as [[_ E']|[[_ [_ E']]|[_ [_ E']]]]; rewrite E' in E; try discriminate.
  injection E as <-. unfold confirm. rewrite confirm_loop_first. simpl.
  set (t := {| team_name := name; players := members;
               captain_id := author_id ctx |}).
  split.
  - destruct (first_team (author_id ctx) (teams (data st))) as [t0|] eqn:F.
    + rewrite (first_team_app _ _ [t] _ F).
      destruct (contains (team_name t0) (confirmed (data st)));
        discriminate.
    + rewrite (first_team_last _ _ t F eq_refl).
      destruct (contains (team_name t) (confirmed (data st)));
        discriminate.
  - intros F C. rewrite (first_team_last _ _ t F eq_refl). simpl.
    rewrite C. simpl. auto.
Qed.

(** X13: on the default empty record, as at a first start or after
    [reset], every [register] is answered that all slots are full and every
    [confirm] that the caller has no team, until an administrator sets the
    slots. *)
Theorem empty_record_refuses_register_and_confirm :
  forall st,
    data st = default_data ->
    (forall ctx name members, register ctx name members st = (SlotsFull, st))
    /\ (forall ctx, confirm ctx st = (NoTeamForCaller, st)).
Proof.
  intros st H. split.
  - intros ctx name members. unfold register. rewrite H. reflexivity.
  - intros ctx. unfold confirm. rewrite H. reflexivity.
Qed.

(** * Further properties of the record store *)











(** * Properties of the heartbeat task *)

(** X14: when every send returns, one run of [heartbeat] sends to the first
    channel named [botlogs] of each guild that has one, once and in the
    order of the guilds, and reaches the end of the loop. *)
Theorem heartbeat_reaches_botlogs_channels :
  forall delivers guilds,
    (forall c, In c (botlogs_channels guilds) -> delivers c = true) ->
    heartbeat delivers guilds = (botlogs_channels guilds, true).
Proof.
  intros delivers guilds. induction guilds as [|g rest IH]; intros H; simpl.
  - reflexivity.
  - simpl in H. destruct (utils_get (channels g) "botlogs") as [c|]; simpl in *.
    + rewrite (H c) by auto. rewrite IH by auto. reflexivity.
    + apply IH. exact H.
Qed.

(** X15: when a send raises, the run ends there: the guilds before it have
    had their message, the channel that failed and every later guild get
    none. *)
Theorem heartbeat_stops_at_failed_send :
  forall delivers before g c after,
    utils_get (channels g) "botlogs" = Some c ->
    delivers c = false ->
    (forall c', In c' (botlogs_channels before) -> delivers c' = true) ->
    heartbeat delivers (before ++ g :: after)
    = (botlogs_channels before, false).
Proof.
  intros delivers before g c after G D.
  induction before as [|b before IH]; intros H; simpl.
  - rewrite G, D. reflexivity.
  - simpl in H. destruct (utils_get (channels b) "botlogs") as [cb|]; simpl in *.
    + rewrite (H cb) by auto. rewrite IH by auto. reflexivity.
    + apply IH. exact H.
Qed.

(** X16: whatever the sends do, a channel that receives the heartbeat is
    named [botlogs] and is the first of that name in its guild. *)
Theorem heartbeat_only_first_botlogs :
  forall delivers guilds c,
    In c (fst (heartbeat delivers guilds)) ->
    channel_name c = "botlogs"
    /\ delivers c = true
    /\ exists g, In g guilds /\ utils_get (channels g) "botlogs" = Some c.
Proof.
  intros delivers guilds c. induction guilds as [|g rest IH]; simpl.
  - intros [].
  - destruct (utils_get (channels g) "botlogs") as [c0|] eqn:G.
    + destruct (delivers c0) eqn:D; [|intros []].
      destruct (heartbeat delivers rest) as [sent fin]. simpl in *.
      intros [<-|Hin].
      * split; [|split; [exact D | exists g; auto]].
        unfold utils_get in G. apply find_some in G.
        now apply String.eqb_eq.
      * destruct (IH Hin) as [N [D' [g' [Hg' G']]]]. eauto 6.
    + intros Hin. destruct (IH Hin) as [N [D' [g' [Hg' G']]]]. eauto 6.
Qed.

(** * The further properties at concrete inputs *)

Lemma rejected_command_changes_nothing_witness :
  unchanged_reply (fst (step (user 12) CmdReset three_teams)) = true
  /\ snd (step (user 12) CmdReset three_teams) = three_teams.
Proof.
  split; [reflexivity|].
  exact (rejected_command_changes_nothing (user 12) CmdReset three_teams
           eq_refl).
Defined.

Lemma accepted_command_is_saved_witness :
  let st' := snd (step (user 11) (CmdRegister "Alpha" ["p1"]) (opened 2)) in
  unchanged_reply
    (fst (step (user 11) (CmdRegister "Alpha" ["p1"]) (opened 2))) = false
  /\ file st' = Some (json_dumps (to_json (data st'))).
Proof.
  split; [reflexivity|].
  exact (accepted_command_is_saved (user 11) (CmdRegister "Alpha" ["p1"])
           (opened 2) eq_refl).
Defined.

Lemma only_administrators_change_slots_witness :
  let l := [(user 11, CmdSetSlots 9); (user 12, CmdReset);
            (user 11, CmdConfirm)] in
  no_admin l = true
  /\ slots (data (run l three_teams)) = slots (data three_teams).
Proof.
  split; [reflexivity|].
  exact (only_administrators_change_slots
           [(user 11, CmdSetSlots 9); (user 12, CmdReset);
            (user 11, CmdConfirm)] three_teams eq_refl).
Defined.

Lemma teams_and_confirmed_only_grow_witness :
  let l := [(user 11, CmdConfirm); (admin, CmdSetSlots 4);
            (user 13, CmdRegister "Delta" []); (user 12, CmdReset)] in
  no_reset l = true
  /\ exists more_teams more_confirmed,
       teams (data (run l three_teams))
       = teams (data three_teams) ++ more_teams
       /\ confirmed (data (run l three_teams))
          = confirmed (data three_teams) ++ more_confirmed.
Proof.
  split; [reflexivity|].
  exact (teams_and_confirmed_only_grow
           [(user 11, CmdConfirm); (admin, CmdSetSlots 4);
            (user 13, CmdRegister "Delta" []); (user 12, CmdReset)]
           three_teams eq_refl).
Defined.

Lemma capacity_kept_without_setslots_witness :
  let l := [(user 13, CmdRegister "Delta" []); (user 12, CmdSetSlots 1);
            (admin, CmdReset); (user 13, CmdRegister "Delta" [])] in
  (no_setslots l = true /\ within_capacity (data three_teams))
  /\ within_capacity (data (run l three_teams)).
Proof.
  assert (W : within_capacity (data three_teams)).
  { unfold within_capacity. simpl. lia. }
  split; [split; [reflexivity | exact W]|].
  exact (capacity_kept_without_setslots
           [(user 13, CmdRegister "Delta" []); (user 12, CmdSetSlots 1);
            (admin, CmdReset); (user 13, CmdRegister "Delta" [])]
           three_teams eq_refl W).
Defined.


Lemma register_then_confirm_witness :
  let st1 := snd (register (user 11) "Alpha" ["p1"] (opened 2)) in
  (register (user 11) "Alpha" ["p1"] (opened 2)
   = (Registered "Alpha" ["p1"], st1)
   /\ first_team (author_id (user 11)) (teams (data (opened 2))) = None
   /\ contains "Alpha" (confirmed (data (opened 2))) = false)
  /\ fst (confirm (user 11) st1) = Confirmed "Alpha".
Proof.
  split; [repeat split|].
  exact (proj1 (proj2 (register_then_confirm (user 11) "Alpha" ["p1"]
                         (opened 2) _ eq_refl) eq_refl eq_refl)).
Defined.

Lemma empty_record_refuses_register_and_confirm_witness :
  let st := snd (reset admin three_teams) in
  data st = default_data
  /\ register (user 11) "Alpha" ["p1"] st = (SlotsFull, st)
  /\ confirm (user 11) st = (NoTeamForCaller, st).
Proof.
  pose proof (empty_record_refuses_register_and_confirm
                (snd (reset admin three_teams)) eq_refl) as H.
  split; [reflexivity|].
  split; [exact (proj1 H (user 11) "Alpha" ["p1"])
         | exact (proj2 H (user 11))].
Defined.

(** The first guild gets the message on its first channel of the name, the
    second gets none, the third on its second channel. *)
Lemma heartbeat_reaches_botlogs_channels_witness :
  (forall c, In c (botlogs_channels some_guilds) -> (fun _ => true) c = true)
  /\ heartbeat (fun _ => true) some_guilds
     = ([{| channel_id := 1; channel_name := "botlogs" |};
         {| channel_id := 5; channel_name := "botlogs" |}], true).
Proof.
  split; [reflexivity|].
  exact (heartbeat_reaches_botlogs_channels (fun _ => true) some_guilds
           (fun _ _ => eq_refl)).
Defined.

(** The send to channel 5 raises after the send to channel 1 returned. *)
Lemma heartbeat_stops_at_failed_send_witness :
  let delivers := fun c => channel_id c =? 1 in
  let before :=
    [{| guild_name := "north";
        channels := [{| channel_id := 1; channel_name := "botlogs" |}] |}] in
  let g :=
    {| guild_name := "south";
       channels := [{| channel_id := 5; channel_name := "botlogs" |}] |} in
  (utils_get (channels g) "botlogs"
   = Some {| channel_id := 5; channel_name := "botlogs" |}
   /\ delivers {| channel_id := 5; channel_name := "botlogs" |} = false
   /\ forall c', In c' (botlogs_channels before) -> delivers c' = true)
  /\ heartbeat delivers (before ++ g :: before)
     = ([{| channel_id := 1; channel_name := "botlogs" |}], false).
Proof.
  assert (H : forall c',
            In c' (botlogs_channels
                     [{| guild_name := "north";
                         channels := [{| channel_id := 1;
                                         channel_name := "botlogs" |}] |}]) ->
            (channel_id c' =? 1) = true).
  { intros c' [<-|[]]. reflexivity. }
  split; [split; [reflexivity | split; [reflexivity | exact H]]|].
  exact (heartbeat_stops_at_failed_send (fun c => channel_id c =? 1)
           [{| guild_name := "north";
               channels := [{| channel_id := 1;
                               channel_name := "botlogs" |}] |}]
           {| guild_name := "south";
              channels := [{| channel_id := 5;
                              channel_name := "botlogs" |}] |}
           {| channel_id := 5; channel_name := "botlogs" |}
           [{| guild_name := "north";
               channels := [{| channel_id := 1;
                               channel_name := "botlogs" |}] |}]
           eq_refl eq_refl H).
Defined.

Lemma heartbeat_only_first_botlogs_witness :
  let c := {| channel_id := 5; channel_name := "botlogs" |} in
  In c (fst (heartbeat (fun _ => true) some_guilds))
  /\ channel_name c = "botlogs"
  /\ exists g, In g some_guilds /\ utils_get (channels g) "botlogs" = Some c.
Proof.
  assert (H : In {| channel_id := 5; channel_name := "botlogs" |}
                (fst (heartbeat (fun _ => true) some_guilds))).
  { simpl. auto. }
  split; [exact H|].
  pose proof (heartbeat_only_first_botlogs (fun _ => true) some_guilds _ H)
    as [N [_ G]].
  split; [exact N | exact G].
Defined.

